(** * Token-based WebSocket relay (ws-server.js): model and properties

    The relay keeps one room per token, with one slot per role
    ("desktop", "web").  Every listener of the source runs to completion
    before the next one starts, so the server is modelled as a state
    machine: each listener is a computation in a small monad over the
    server state, with a log of the calls it makes on the sockets
    ([ws.send], [ws.close]) and with the exceptions that nothing
    catches, which end the process. *)

From Stdlib Require Import ZArith.
From Stdlib Require Import Floats.PrimFloat.
From stdpp Require Import gmap strings list fin_maps.

Local Open Scope string_scope.
Local Open Scope list_scope.

(** ** Values of the runtime *)

(** A value as [JSON.parse] returns it.  Numbers are doubles.  [JObj]
    lists the own properties of the object, one entry per key. *)
#[local] Unset Elimination Schemes.
Inductive JSValue :=
| JNull
| JBool (b : bool)
| JNum (n : float)
| JStr (s : string)
| JArr (items : list JSValue)
| JObj (props : list (string * JSValue)).
#[local] Set Elimination Schemes.

(** Truthiness ([if (v)], [v && ...], [!v]). *)
Definition truthy (v : JSValue) : bool :=
  match v with
  | JNull => false
  | JBool b => b
  | JNum n => negb (PrimFloat.eqb n 0%float) && negb (PrimFloat.is_nan n)
  | JStr s => negb (bool_decide (s = ""))
  | JArr _ | JObj _ => true
  end.

Fixpoint assoc (key : string) (props : list (string * JSValue)) : option JSValue :=
  match props with
  | [] => None
  | (k, v) :: rest => if bool_decide (k = key) then Some v else assoc key rest
  end.

(** Property read [v.key]; [None] is [undefined].  It is used for the
    keys [type] and [name] only, which no prototype of a parsed value
    defines, so only an object's own properties can answer. *)
Definition prop (v : JSValue) (key : string) : option JSValue :=
  match v with
  | JObj props => assoc key props
  | _ => None
  end.

(** [x === 'literal'] for a property read [x]. *)
Definition is_str (x : option JSValue) (lit : string) : bool :=
  match x with
  | Some (JStr s) => bool_decide (s = lit)
  | _ => false
  end.

(** ** Data model *)

Inductive Role := role_desktop | role_web.

#[global] Instance Role_eq_dec : EqDecision Role.
Proof. solve_decision. Defined.

Definition role_name (r : Role) : string :=
  match r with role_desktop => "desktop" | role_web => "web" end.

Inductive ReadyState := CONNECTING | OPEN | CLOSING | CLOSED.

#[global] Instance ReadyState_eq_dec : EqDecision ReadyState.
Proof. solve_decision. Defined.

(** A socket object is named by its position in the table of sockets
    the server has accepted. *)
Abbreviation WsId := nat (only parsing).

(** [{ desktop: WebSocket|null, web: WebSocket|null }] *)
Record Room := mkRoom { desktop : option WsId; web : option WsId }.

(** [room[role]] and [room[role] = v] *)
Definition slot (room : Room) (role : Role) : option WsId :=
  match role with role_desktop => desktop room | role_web => web room end.

Definition set_slot (role : Role) (v : option WsId) (room : Room) : Room :=
  match role with
  | role_desktop => mkRoom v (web room)
  | role_web => mkRoom (desktop room) v
  end.

(** A reference to a room object.  An entry of [rooms] is never deleted
    nor replaced, so the object that [rooms] holds for a token is named
    by that token. *)
Abbreviation RoomRef := string (only parsing).

(** A socket: its [readyState], and the variables [room] and [role]
    that the three listeners registered at admission close over ([None]
    for a socket that has no listeners); [token] is the name of [room]. *)
Record Socket := mkSocket {
  readyState : ReadyState;
  listeners : option (RoomRef * Role)
}.

(** The state of the process: the [rooms] map and the accepted sockets. *)
Record Server := mkServer {
  rooms : gmap string Room;
  sockets : list Socket
}.

Definition init : Server := mkServer ∅ [].

(** A call the server makes on a socket.  The payload of [Send] is the
    object handed to [JSON.stringify]; the frame on the wire is its
    serialization. *)
Inductive Call :=
| Send (ws : WsId) (payload : JSValue)
| Close (ws : WsId) (code : Z) (reason : string).

(** ** The monad of listeners: state, a log of calls, exceptions *)

(** A computation returns a value ([Some]) or throws ([None]); what it
    throws past the listener is caught by nobody and ends the process.
    Either way it leaves a state and the calls made so far. *)
Definition M (A : Type) : Type := Server → option A * Server * list Call.

#[global] Instance M_ret : MRet M := λ A a st, (Some a, st, []).

#[global] Instance M_bind : MBind M := λ A B f m st,
  let '(a, st1, log1) := m st in
  match a with
  | Some a => let '(b, st2, log2) := f a st1 in (b, st2, log1 ++ log2)
  | None => (None, st1, log1)
  end.

Definition throw {A} : M A := λ st, (None, st, []).

Definition state_of {A} (r : A * Server * list Call) : Server := r.1.2.
Definition calls_of {A} (r : A * Server * list Call) : list Call := r.2.
Arguments state_of {A} !r /.
Arguments calls_of {A} !r /.

(** The computation came to its end without an exception. *)
Definition returns {A} (r : option A * Server * list Call) : Prop :=
  is_Some r.1.1.

Definition get_state : M Server := λ st, (Some st, st, []).
Definition set_rooms (rs : gmap string Room) : M unit :=
  λ st, (Some tt, mkServer rs (sockets st), []).
Definition set_sockets (ss : list Socket) : M unit :=
  λ st, (Some tt, mkServer (rooms st) ss, []).

(** *** The socket library *)

Definition set_readyState (rs : ReadyState) (s : Socket) : Socket :=
  mkSocket rs (listeners s).

Definition set_listeners (env : RoomRef * Role) (s : Socket) : Socket :=
  mkSocket (readyState s) (Some env).

(** [ws && ws.readyState === WebSocket.OPEN] on the content of a slot. *)
Definition is_open (st : Server) (ws : option WsId) : bool :=
  match ws with
  | Some i =>
      match sockets st !! i with
      | Some s => bool_decide (readyState s = OPEN)
      | None => false
      end
  | None => false
  end.

(** [ws.send(JSON.stringify(payload))]; the call is logged whatever the
    ready state of the socket. *)
Definition send (ws : WsId) (payload : JSValue) : M unit :=
  λ st, (Some tt, st, [Send ws payload]).

(** [ws.close(code, reason)]: an open socket starts its closing
    handshake, a socket already closing or closed stays as it is. *)
Definition closing (rs : ReadyState) : ReadyState :=
  match rs with CLOSED => CLOSED | _ => CLOSING end.

Definition close (ws : WsId) (code : Z) (reason : string) : M unit :=
  λ st, (Some tt,
         mkServer (rooms st)
           (alter (λ s, set_readyState (closing (readyState s)) s) ws (sockets st)),
         [Close ws code reason]).

(** The socket the library hands to the ['connection'] listener: a new
    object, open, without listeners. *)
Definition accept : M WsId :=
  λ st, (Some (length (sockets st)),
         mkServer (rooms st) (sockets st ++ [mkSocket OPEN None]), []).

(** [ws.on('message', ...); ws.on('close', ...); ws.on('error', ...)] *)
Definition listen (ws : WsId) (room : RoomRef) (role : Role) : M unit :=
  st ← get_state;
  set_sockets (alter (set_listeners (room, role)) ws (sockets st)).

(** ** The server *)

(** *** Frames built by the server *)

Definition frame_error (message : string) : JSValue :=
  JObj [("type", JStr "error"); ("message", JStr message)].

Definition frame_connected (role token : string) : JSValue :=
  JObj [("type", JStr "connected"); ("role", JStr role); ("token", JStr token)].

Definition frame_status (d w : bool) : JSValue :=
  JObj [("type", JStr "status"); ("desktop", JBool d); ("web", JBool w)].

Definition frame_signal (name : JSValue) : JSValue :=
  JObj [("type", JStr "signal"); ("name", name)].

Definition frame_pong : JSValue := JObj [("type", JStr "pong")].

(** *** Room registry *)

Definition getOrCreateRoom (token : string) : M RoomRef :=
  st ← get_state;
  (if negb (bool_decide (is_Some (rooms st !! token)))
   then set_rooms (<[token := mkRoom None None]> (rooms st))
   else mret tt);;
  mret token.

(** [room[role]] and [room[role] = v] through a reference. *)
Definition room_get (room : RoomRef) (role : Role) : M (option WsId) :=
  st ← get_state;
  mret (rooms st !! room ≫= λ r, slot r role).

Definition room_set (room : RoomRef) (role : Role) (v : option WsId) : M unit :=
  st ← get_state;
  set_rooms (alter (set_slot role v) room (rooms st)).

(** [room] is [None] for a null argument. *)
Definition cleanupSocket (room : option RoomRef) (role : Role) : M unit :=
  match room with
  | None => mret tt
  | Some room => room_set room role None
  end.

(** *** Status broadcast *)

Fixpoint send_open (payload : JSValue) (targets : list (option WsId)) : M unit :=
  match targets with
  | [] => mret tt
  | ws :: rest =>
      st ← get_state;
      (if is_open st ws
       then match ws with Some i => send i payload | None => mret tt end
       else mret tt);;
      send_open payload rest
  end.

Definition broadcastStatus (token : string) : M unit :=
  st ← get_state;
  match rooms st !! token with
  | None => mret tt
  | Some room =>
      let statusPayload :=
        frame_status (bool_decide (is_Some (desktop room)))
                     (bool_decide (is_Some (web room))) in
      send_open statusPayload [desktop room; web room]
  end.

(** *** Admission *)

(** [!s] on a query parameter ([null] when it is missing). *)
Definition missing (s : option string) : bool :=
  match s with
  | None => true
  | Some s => bool_decide (s = "")
  end.

(** [list.includes(s)] *)
Definition includes (l : list string) (s : option string) : bool :=
  match s with
  | None => false
  | Some s => bool_decide (s ∈ l)
  end.

(** The slot a role string names. *)
Definition role_of (role : option string) : option Role :=
  match role with
  | Some "desktop" => Some role_desktop
  | Some "web" => Some role_web
  | _ => None
  end.

(** The test that guards the listener of ['connection']. *)
Definition rejected (token role : option string) : bool :=
  missing token || missing role || negb (includes ["desktop"; "web"] role).

(** The request of a connection, by what
    [new URL(req.url, `http://${req.headers.host}`)] makes of it:
    [req_bad_url] when the constructor throws (a request target or a
    Host header that gives no URL), else [req_url token role] with the
    values of [searchParams.get('token')] and [searchParams.get('role')]
    ([None] for [null]). *)
Inductive Request :=
| req_bad_url
| req_url (token role : option string).

(** The listener of ['connection'].  Nothing catches what [new URL]
    throws.  Past the guard [token] and [role] are strings. *)
Definition on_connection (req : Request) : M unit :=
  ws ← accept;
  match req with
  | req_bad_url => throw
  | req_url token role =>
      if rejected token role
      then
        send ws (frame_error "Invalid token or role");;
        close ws 1008 "Invalid token/role"
      else
        match token, role_of role with
        | Some token, Some role =>
            room ← getOrCreateRoom token;
            prev ← room_get room role;
            st ← get_state;
            (if is_open st prev
             then match prev with
                  | Some prev => close prev 4000 "Replaced by new connection"
                  | None => mret tt
                  end
             else mret tt);;
            room_set room role (Some ws);;
            send ws (frame_connected (role_name role) token);;
            broadcastStatus token;;
            listen ws room role
        | _, _ => mret tt
        end
  end.

(** *** Message routing *)

Definition peer_of (role : Role) : Role :=
  match role with role_desktop => role_web | role_web => role_desktop end.

(** The test of the signal branch:
    [msg && msg.type === 'signal' &&
     (msg.name === 'signal-1' || msg.name === 'signal-2')] *)
Definition is_signal (msg : JSValue) : bool :=
  truthy msg && is_str (prop msg "type") "signal"
  && (is_str (prop msg "name") "signal-1" || is_str (prop msg "name") "signal-2").

(** [msg && msg.type === 'ping'] *)
Definition is_ping (msg : JSValue) : bool :=
  truthy msg && is_str (prop msg "type") "ping".

(** The listener of ['message'] of the socket [ws] admitted into [room]
    as [role].  [parsed] is the outcome of [JSON.parse(raw.toString())],
    [None] when it throws. *)
Definition on_message (ws : WsId) (room : RoomRef) (role : Role)
    (parsed : option JSValue) : M unit :=
  match parsed with
  | None => send ws (frame_error "Invalid JSON")
  | Some msg =>
      if is_signal msg then
        let peerRole := peer_of role in
        peer ← room_get room peerRole;
        st ← get_state;
        if is_open st peer
        then match peer with
             | Some peer => send peer (frame_signal (default JNull (prop msg "name")))
             | None => mret tt
             end
        else send ws (frame_error "Peer not connected")
      else if is_ping msg then send ws frame_pong
      else mret tt
  end.

(** *** Teardown *)

(** The listeners of ['close'] and of ['error'] have the same body. *)
Definition on_close (room : RoomRef) (role : Role) (token : string) : M unit :=
  cleanupSocket (Some room) role;;
  broadcastStatus token.

Definition on_error (room : RoomRef) (role : Role) (token : string) : M unit :=
  cleanupSocket (Some room) role;;
  broadcastStatus token.

(** ** The event loop *)

(** What the socket library delivers.  [ev_closing] is the start of a
    closing handshake by the client: the socket leaves [OPEN] and no
    listener of the server runs until its ['close'] event. *)
Inductive Event :=
| ev_connection (req : Request)
| ev_message (ws : WsId) (parsed : option JSValue)
| ev_closing (ws : WsId)
| ev_close (ws : WsId)
| ev_error (ws : WsId).

(** The library's own update of [readyState] before it emits an event. *)
Definition transport (ws : WsId) (f : ReadyState → ReadyState) : M unit :=
  st ← get_state;
  set_sockets (alter (λ s, set_readyState (f (readyState s)) s) ws (sockets st)).

(** The closure of the listeners of [ws], if it has any. *)
Definition closure (st : Server) (ws : WsId) : option (RoomRef * Role) :=
  sockets st !! ws ≫= listeners.

(** An event of a socket without listeners is dropped, except
    ['error']: an emitter without an ['error'] listener throws the
    error, and nothing catches it.  A number that names no socket is no
    event of the library. *)
Definition unhandled_error (ws : WsId) : M unit :=
  st ← get_state;
  if bool_decide (ws < length (sockets st)) then throw else mret tt.

Definition step (ev : Event) : M unit :=
  match ev with
  | ev_connection req => on_connection req
  | ev_message ws parsed =>
      st ← get_state;
      match closure st ws with
      | Some (room, role) => on_message ws room role parsed
      | None => mret tt
      end
  | ev_closing ws => transport ws closing
  | ev_close ws =>
      transport ws (λ _, CLOSED);;
      st ← get_state;
      match closure st ws with
      | Some (room, role) => on_close room role room
      | None => mret tt
      end
  | ev_error ws =>
      transport ws closing;;
      st ← get_state;
      match closure st ws with
      | Some (room, role) => on_error room role room
      | None => unhandled_error ws
      end
  end.

Fixpoint run (evs : list Event) : M unit :=
  match evs with
  | [] => mret tt
  | ev :: rest => step ev;; run rest
  end.

(** The state and the calls of a listener started in [st]. *)
Definition exec (m : M unit) (st : Server) : Server * list Call :=
  (state_of (m st), calls_of (m st)).

(** The states of a running process: [run] stops at the first
    exception, and the process with it. *)
Definition reachable (st : Server) : Prop :=
  ∃ evs, returns (run evs init) ∧ state_of (run evs init) = st.

(** ** Definitions used by the statements and the proofs *)

(** The sockets among [targets] that are open in [st], in order. *)
Definition open_targets (st : Server) (targets : list (option WsId)) : list WsId :=
  omap (λ ws, if is_open st ws then ws else None) targets.

Definition close_socket (p : WsId) (ss : list Socket) : list Socket :=
  alter (λ s, set_readyState (closing (readyState s)) s) p ss.

(** The rooms once [getOrCreateRoom token] has run. *)
Definition with_room (token : string) (st : Server) : gmap string Room :=
  if bool_decide (is_Some (rooms st !! token)) then rooms st
  else <[token := mkRoom None None]> (rooms st).

(** The state in which the admission reads the slot: the new socket is
    there and so is the room. *)
Definition arrived (token : string) (st : Server) : Server :=
  mkServer (with_room token st) (sockets st ++ [mkSocket OPEN None]).

(** The content of the slot of [role] in the room of [token]. *)
Definition occupant (st : Server) (token : string) (role : Role) : option WsId :=
  rooms st !! token ≫= λ r, slot r role.

(** The state in which the admission broadcasts: the former occupant is
    told to close if it was open, the new socket is in the slot. *)
Definition installed (token : string) (role : Role) (st : Server) : Server :=
  let st1 := arrived token st in
  mkServer (alter (set_slot role (Some (length (sockets st)))) token (rooms st1))
    (match occupant st1 token role with
     | Some p => if is_open st1 (Some p) then close_socket p (sockets st1)
                 else sockets st1
     | None => sockets st1
     end).

(** The state an admission ends in: the listeners are registered. *)
Definition admitted (token : string) (role : Role) (st : Server) : Server :=
  let st2 := installed token role st in
  mkServer (rooms st2)
    (alter (set_listeners (token, role)) (length (sockets st)) (sockets st2)).

Definition eviction (token : string) (role : Role) (st : Server) : list Call :=
  let st1 := arrived token st in
  match occupant st1 token role with
  | Some p => if is_open st1 (Some p)
              then [Close p 4000 "Replaced by new connection"] else []
  | None => []
  end.

(** The state once [cleanupSocket(room, role)] has run. *)
Definition cleared (room : RoomRef) (role : Role) (st : Server) : Server :=
  mkServer (alter (set_slot role None) room (rooms st)) (sockets st).

(** The state in which a connection whose URL does not parse ends the
    process: the socket is there, no call was made on it. *)
Definition dropped (st : Server) : Server :=
  mkServer (rooms st) (sockets st ++ [mkSocket OPEN None]).

(** The state a refused admission ends in. *)
Definition refused (st : Server) : Server :=
  mkServer (rooms st) (sockets st ++ [mkSocket CLOSING None]).

(** [transport ws f] *)
Definition moved (ws : WsId) (f : ReadyState → ReadyState) (st : Server) : Server :=
  mkServer (rooms st)
    (alter (λ s, set_readyState (f (readyState s)) s) ws (sockets st)).

(** The state a teardown event ([f] is the transport's move) ends in. *)
Definition torn_down (ws : WsId) (f : ReadyState → ReadyState) (st : Server) : Server :=
  match closure st ws with
  | Some (room, role) => cleared room role (moved ws f st)
  | None => moved ws f st
  end.

(** A slot holds only a socket that was admitted into it, and the room
    a socket's listeners closed over is in the registry. *)
Definition wf (st : Server) : Prop :=
  (∀ token role i,
     occupant st token role = Some i → closure st i = Some (token, role))
  ∧ (∀ i token role,
       closure st i = Some (token, role) → is_Some (rooms st !! token)).




Definition is_status (c : Call) : bool :=
  match c with
  | Send _ payload => is_str (prop payload "type") "status"
  | Close _ _ _ => false
  end.

(** The sockets the server called [close] on, in order. *)
Definition closed_by_server (calls : list Call) : list WsId :=
  omap (λ c, match c with Close ws _ _ => Some ws | Send _ _ => None end) calls.

(** A desktop client (socket 0) and a web client (socket 1) share the
    token "abc"; a second desktop client (socket 2) replaces the first,
    whose ['close'] event follows; then a third desktop client
    (socket 3) connects. *)
Definition evs_displaced : list Event :=
  [ev_connection (req_url (Some "abc") (Some "desktop"));
   ev_connection (req_url (Some "abc") (Some "web"));
   ev_connection (req_url (Some "abc") (Some "desktop"));
   ev_close 0;
   ev_connection (req_url (Some "abc") (Some "desktop"))].

Definition st_displaced : Server := state_of (run evs_displaced init).

(** A desktop client (socket 0) and a web client (socket 1) share the
    token "abc"; a second desktop client (socket 2) connects and takes
    the place of the first. *)
Definition st_replaced : Server :=
  state_of (run [ev_connection (req_url (Some "abc") (Some "desktop"));
                 ev_connection (req_url (Some "abc") (Some "web"));
                 ev_connection (req_url (Some "abc") (Some "desktop"))] init).

(** A desktop client (socket 0) and a web client (socket 1) share the
    token "abc". *)
Definition st_paired : Server :=
  state_of (run [ev_connection (req_url (Some "abc") (Some "desktop"));
                 ev_connection (req_url (Some "abc") (Some "web"))] init).

(** A desktop client alone in the room of "abc". *)
Definition st_alone : Server :=
  state_of (run [ev_connection (req_url (Some "abc") (Some "desktop"))] init).

(** The token an event makes a room for: the token of a connection that
    passes the guard. *)
Definition admits (ev : Event) : gset string :=
  match ev with
  | ev_connection (req_url (Some token) role) =>
      if rejected (Some token) role then ∅ else {[ token ]}
  | _ => ∅
  end.

Definition tokens_admitted (evs : list Event) : gset string :=
  ⋃ (admits <$> evs).

(** The slot an event writes, with what it writes there: an admitted
    connection puts the new socket into its slot, a teardown puts
    [null] into the slot its listener closed over. *)
Definition event_slot (st : Server) (ev : Event)
    : option (string * Role * option WsId) :=
  match ev with
  | ev_connection req_bad_url => None
  | ev_connection (req_url token role) =>
      if rejected token role then None
      else match token, role_of role with
           | Some t, Some r => Some (t, r, Some (length (sockets st)))
           | _, _ => None
           end
  | ev_close ws | ev_error ws =>
      match closure st ws with
      | Some (t, r) => Some (t, r, None)
      | None => None
      end
  | ev_message _ _ | ev_closing _ => None
  end.

(** The flag of [role] in a status frame [{desktop: d, web: w}]. *)
Definition flag_of (role : Role) (d w : bool) : bool :=
  match role with role_desktop => d | role_web => w end.

(** The socket a call is made on. *)
Definition target (c : Call) : WsId :=
  match c with Send ws _ => ws | Close ws _ _ => ws end.

(** The socket an event is about (the new one for a connection), and
    the token it is about: the token of the request for a connection,
    the token the listeners closed over for the others. *)
Definition event_socket (st : Server) (ev : Event) : WsId :=
  match ev with
  | ev_connection _ => length (sockets st)
  | ev_message ws _ | ev_closing ws | ev_close ws | ev_error ws => ws
  end.

Definition event_token (st : Server) (ev : Event) : option string :=
  match ev with
  | ev_connection req_bad_url => None
  | ev_connection (req_url token _) => token
  | ev_message ws _ | ev_closing ws | ev_close ws | ev_error ws =>
      fst <$> closure st ws
  end.

(** A desktop client under "abc" and a desktop and a web client under
    "xyz". *)
Definition st_two_rooms : Server :=
  state_of (run [ev_connection (req_url (Some "abc") (Some "desktop"));
                 ev_connection (req_url (Some "xyz") (Some "desktop"));
                 ev_connection (req_url (Some "xyz") (Some "web"))] init).

(** ** Properties *)

(** *** Reading the monad *)

Ltac unfold_m :=
  unfold exec, state_of, calls_of, listen, transport, room_get, room_set,
    mbind, M_bind, mret, M_ret, get_state, set_rooms, set_sockets, send,
    close, accept in *.

Lemma alter_last {A} (f : A → A) (l : list A) (x : A) :
  alter f (length l) (l ++ [x]) = l ++ [f x].
Proof.
  induction l as [|y l IH]; [reflexivity|].
  cbn. f_equal. exact IH.
Qed.



Lemma send_open_eq payload targets st :
  send_open payload targets st
  = (Some tt, st, map (λ ws, Send ws payload) (open_targets st targets)).
Proof.
  induction targets as [|ws rest IH]; [reflexivity|].
  unfold open_targets in *. cbn [send_open omap list_omap]. unfold_m.
  destruct (is_open st ws); [destruct ws|]; cbn beta iota zeta; rewrite IH; reflexivity.
Qed.

Lemma broadcastStatus_eq token st :
  broadcastStatus token st
  = (Some tt, st,
     match rooms st !! token with
     | None => []
     | Some room =>
         map (λ ws, Send ws (frame_status (bool_decide (is_Some (desktop room)))
                                          (bool_decide (is_Some (web room)))))
             (open_targets st [desktop room; web room])
     end).
Proof.
  unfold broadcastStatus. unfold_m.
  destruct (rooms st !! token) as [room|]; [|reflexivity].
  rewrite send_open_eq. reflexivity.
Qed.

(** What a broadcast sends depends on the rooms and on the ready
    states only. *)
Lemma is_open_ext st st' ws :
  (∀ i, readyState <$> sockets st !! i = readyState <$> sockets st' !! i) →
  is_open st ws = is_open st' ws.
Proof.
  intros H. unfold is_open. destruct ws as [i|]; [|reflexivity].
  specialize (H i).
  destruct (sockets st !! i) as [s|], (sockets st' !! i) as [s'|];
    cbn in H; try discriminate H; [|reflexivity].
  injection H as H. rewrite H. reflexivity.
Qed.

Lemma broadcastStatus_ext token st st' :
  rooms st = rooms st' →
  (∀ i, readyState <$> sockets st !! i = readyState <$> sockets st' !! i) →
  calls_of (broadcastStatus token st) = calls_of (broadcastStatus token st').
Proof.
  intros Hr Hs. rewrite !broadcastStatus_eq. unfold calls_of. cbn. rewrite Hr.
  destruct (rooms st' !! token) as [room|]; [|reflexivity].
  unfold open_targets. cbn.
  rewrite !(is_open_ext st st') by exact Hs. reflexivity.
Qed.

Lemma rejected_true token role :
  (token = None ∨ token = Some "")
  ∨ role = None ∨ (role ≠ Some "desktop" ∧ role ≠ Some "web") →
  rejected token role = true.
Proof.
  unfold rejected. intros [[-> | ->] | [-> | [Hd Hw]]]; try reflexivity.
  - cbn. apply orb_true_r.
  - destruct role as [r|]; [|cbn; apply orb_true_r].
    apply orb_true_iff. right. apply negb_true_iff.
    cbn. apply bool_decide_eq_false. intros Hin.
    apply elem_of_cons in Hin as [-> | Hin]; [congruence|].
    apply elem_of_cons in Hin as [-> | Hin]; [congruence|].
    inversion Hin.
Qed.

Lemma rejected_false token role :
  token ≠ "" → rejected (Some token) (Some (role_name role)) = false.
Proof.
  intros Ht. unfold rejected. cbn.
  rewrite (bool_decide_eq_false_2 _ Ht). destruct role; reflexivity.
Qed.

Lemma role_of_name role : role_of (Some (role_name role)) = Some role.
Proof. destruct role; reflexivity. Qed.

Lemma closure_Some_truthy msg key v : prop msg key = Some v → truthy msg = true.
Proof. destruct msg; cbn; congruence. Qed.

(** *** Admission and teardown in closed form *)

Lemma broadcastStatus_run token st :
  broadcastStatus token st = (Some tt, st, calls_of (broadcastStatus token st)).
Proof. rewrite broadcastStatus_eq. reflexivity. Qed.

Ltac run_broadcast :=
  cbn -[broadcastStatus];
  match goal with
  | |- context [broadcastStatus ?t ?X] => rewrite (broadcastStatus_run t X)
  end;
  cbn -[is_open broadcastStatus]; rewrite ?app_nil_r; try reflexivity.

Lemma on_connection_accepted st token role :
  token ≠ "" →
  on_connection (req_url (Some token) (Some (role_name role))) st
  = (Some tt, admitted token role st,
     eviction token role st
     ++ Send (length (sockets st)) (frame_connected (role_name role) token)
     :: calls_of (broadcastStatus token (installed token role st))).
Proof.
  intros Ht. unfold on_connection, getOrCreateRoom. unfold_m.
  cbn -[rejected role_of]. rewrite rejected_false by done.
  rewrite role_of_name.
  unfold admitted, installed, eviction, arrived, occupant, with_room, close_socket.
  cbn -[is_open broadcastStatus].
  destruct (bool_decide (is_Some (rooms st !! token)));
    cbn -[is_open broadcastStatus].
  - destruct (rooms st !! token) as [r|]; cbn -[is_open broadcastStatus];
      [|run_broadcast].
    destruct (slot r role) as [p|]; cbn -[is_open broadcastStatus];
      [|run_broadcast].
    destruct (is_open _ (Some p)); cbn -[is_open broadcastStatus];
      run_broadcast.
  - rewrite !lookup_insert_eq. cbn -[is_open broadcastStatus].
    destruct role; cbn -[is_open broadcastStatus]; run_broadcast.
Qed.

Lemma on_close_eq room role token st :
  on_close room role token st
  = (Some tt, cleared room role st,
     calls_of (broadcastStatus token (cleared room role st))).
Proof.
  unfold on_close, cleanupSocket, cleared. unfold_m.
  cbn -[broadcastStatus]. run_broadcast.
Qed.

(** A message listener never changes the state. *)
Lemma on_message_state ws room role parsed st :
  state_of (on_message ws room role parsed st) = st.
Proof.
  unfold on_message. unfold_m. destruct parsed as [msg|]; [|reflexivity].
  destruct (is_signal msg).
  - cbn -[is_open]. destruct (is_open st _); [|reflexivity].
    destruct (option_bind _ _ _ _); reflexivity.
  - destruct (is_ping msg); reflexivity.
Qed.

Lemma on_connection_rejected st token role :
  rejected token role = true →
  on_connection (req_url token role) st
  = (Some tt, refused st,
     [Send (length (sockets st)) (frame_error "Invalid token or role");
      Close (length (sockets st)) 1008 "Invalid token/role"]).
Proof.
  intros H. unfold on_connection, refused. unfold_m. cbn. rewrite H. cbn.
  rewrite alter_last. reflexivity.
Qed.

Lemma on_connection_bad_url st :
  on_connection req_bad_url st = (None, dropped st, []).
Proof. reflexivity. Qed.

Lemma rejected_false_inv token role :
  rejected token role = false →
  ∃ t r, token = Some t ∧ t ≠ "" ∧ role = Some (role_name r).
Proof.
  unfold rejected. intros H.
  apply orb_false_iff in H as [H Hin]. apply orb_false_iff in H as [Ht _].
  apply negb_false_iff in Hin.
  destruct token as [t|]; [|discriminate Ht].
  destruct role as [s|]; [|discriminate Hin].
  cbn in Ht, Hin. apply bool_decide_eq_false in Ht.
  apply bool_decide_eq_true in Hin.
  apply elem_of_cons in Hin as [-> | Hin]; [by exists t, role_desktop|].
  apply elem_of_cons in Hin as [-> | Hin]; [by exists t, role_web|].
  inversion Hin.
Qed.

(** *** Sockets, slots and closures across an admission *)

Lemma bind_alter_listeners (g : Socket → Socket) j (l : list Socket) i :
  (∀ s, listeners (g s) = listeners s) →
  alter g j l !! i ≫= listeners = l !! i ≫= listeners.
Proof.
  intros Hg. destruct (decide (j = i)) as [->|Hne].
  - rewrite list_lookup_alter_eq. destruct (l !! i); cbn; [apply Hg|done].
  - by rewrite list_lookup_alter_ne.
Qed.

Lemma closure_lt st i e : closure st i = Some e → i < length (sockets st).
Proof.
  unfold closure. destruct (sockets st !! i) eqn:E; [|discriminate].
  intros _. by eapply lookup_lt_Some.
Qed.

Lemma length_installed token role st :
  length (sockets (installed token role st)) = S (length (sockets st)).
Proof.
  unfold installed, close_socket. cbn [sockets].
  destruct (occupant (arrived token st) token role) as [p|];
    [destruct (is_open (arrived token st) (Some p))|];
    rewrite ?length_alter; cbn [arrived sockets]; rewrite length_app; cbn; lia.
Qed.

Lemma closure_admitted_new token role st :
  closure (admitted token role st) (length (sockets st)) = Some (token, role).
Proof.
  unfold closure, admitted. cbn [sockets]. rewrite list_lookup_alter_eq.
  destruct (lookup_lt_is_Some_2 (sockets (installed token role st))
              (length (sockets st))) as [s ->]; [|reflexivity].
  rewrite length_installed. lia.
Qed.

Lemma lookup_with_room token st t :
  with_room token st !! t
  = if decide (token = t)
    then Some (default (mkRoom None None) (rooms st !! token))
    else rooms st !! t.
Proof.
  unfold with_room. case_bool_decide as Hs; case_decide as Ht; subst.
  - destruct Hs as [r ->]. reflexivity.
  - reflexivity.
  - rewrite lookup_insert_eq.
    destruct (rooms st !! t) eqn:E; [|reflexivity].
    exfalso. apply Hs. by eexists.
  - by rewrite lookup_insert_ne.
Qed.

Lemma occupant_arrived token st t role :
  occupant (arrived token st) t role = occupant st t role.
Proof.
  unfold occupant, arrived. cbn [rooms]. rewrite lookup_with_room.
  case_decide as Ht; [subst|reflexivity].
  destruct (rooms st !! t); [reflexivity|]. by destruct role.
Qed.

Lemma slot_set_slot role v room role' :
  slot (set_slot role v room) role'
  = if decide (role = role') then v else slot room role'.
Proof. by destruct role, role'. Qed.

Lemma rooms_admitted token role st :
  rooms (admitted token role st)
  = alter (set_slot role (Some (length (sockets st)))) token (with_room token st).
Proof. reflexivity. Qed.

Lemma occupant_admitted token role st t r :
  occupant (admitted token role st) t r
  = if decide (token = t ∧ role = r) then Some (length (sockets st))
    else occupant st t r.
Proof.
  rewrite <- (occupant_arrived token st t r).
  unfold occupant. rewrite rooms_admitted. cbn [arrived rooms].
  destruct (decide (token = t)) as [->|Hne].
  - rewrite lookup_alter_eq, lookup_with_room, decide_True by done.
    cbn. rewrite slot_set_slot.
    destruct (decide (role = r)) as [->|Hr].
    + by rewrite decide_True.
    + rewrite decide_False by (intros [_ ?]; done). reflexivity.
  - rewrite lookup_alter_ne by done.
    rewrite decide_False by (intros [? _]; done). reflexivity.
Qed.

Lemma occupant_cleared room role st t r :
  occupant (cleared room role st) t r
  = if decide (room = t ∧ role = r) then None else occupant st t r.
Proof.
  unfold occupant, cleared. cbn [rooms].
  destruct (decide (room = t)) as [->|Hne].
  - rewrite lookup_alter_eq. destruct (rooms st !! t) as [x|]; cbn.
    + rewrite slot_set_slot. destruct (decide (role = r)) as [->|Hr].
      * by rewrite decide_True.
      * rewrite decide_False by (intros [_ ?]; done). reflexivity.
    + by case_decide.
  - rewrite lookup_alter_ne by done.
    rewrite decide_False by (intros [? _]; done). reflexivity.
Qed.

Lemma closure_admitted_ne token role st i :
  i ≠ length (sockets st) →
  closure (admitted token role st) i = closure st i.
Proof.
  intros Hne. unfold closure, admitted. cbn [sockets].
  rewrite list_lookup_alter_ne by done.
  assert (Hold : (sockets st ++ [mkSocket OPEN None]) !! i ≫= listeners
                 = sockets st !! i ≫= listeners).
  { destruct (decide (i < length (sockets st))) as [Hlt|Hge].
    - by rewrite lookup_app_l.
    - rewrite !lookup_ge_None_2; [done|lia|rewrite length_app; cbn; lia]. }
  unfold installed, close_socket. cbn [sockets].
  destruct (occupant (arrived token st) token role) as [p|];
    [destruct (is_open (arrived token st) (Some p))|];
    cbn [arrived sockets]; try exact Hold.
  by rewrite bind_alter_listeners.
Qed.

Lemma room_admitted token role st t :
  is_Some (rooms (admitted token role st) !! t)
  ↔ token = t ∨ is_Some (rooms st !! t).
Proof.
  rewrite rooms_admitted.
  destruct (decide (token = t)) as [->|Hne].
  - rewrite lookup_alter_eq, lookup_with_room, decide_True by done.
    split; [by left|]. intros _. by eexists.
  - rewrite lookup_alter_ne, lookup_with_room, decide_False by done.
    split; [by right|]. by intros [?|?].
Qed.

Lemma closure_moved ws f st i : closure (moved ws f st) i = closure st i.
Proof. unfold closure, moved. cbn [sockets]. by rewrite bind_alter_listeners. Qed.

Lemma closure_refused st i : closure (refused st) i = closure st i.
Proof.
  unfold closure, refused. cbn [sockets].
  destruct (decide (i < length (sockets st))) as [Hlt|Hge].
  - by rewrite lookup_app_l.
  - rewrite (lookup_ge_None_2 (sockets st)) by lia.
    destruct (decide (i = length (sockets st))) as [->|Hne].
    + by rewrite list_lookup_middle.
    + rewrite lookup_ge_None_2; [done|rewrite length_app; cbn; lia].
Qed.

Lemma closure_dropped st i : closure (dropped st) i = closure st i.
Proof.
  unfold closure, dropped. cbn [sockets].
  destruct (decide (i < length (sockets st))) as [Hlt|Hge].
  - by rewrite lookup_app_l.
  - rewrite (lookup_ge_None_2 (sockets st)) by lia.
    destruct (decide (i = length (sockets st))) as [->|Hne].
    + by rewrite list_lookup_middle.
    + rewrite lookup_ge_None_2; [done|rewrite length_app; cbn; lia].
Qed.

(** *** The state after each event *)

Lemma state_bind {A B} (m : M A) (k : A → M B) st :
  state_of ((m ≫= k) st)
  = match (m st).1.1 with
    | Some a => state_of (k a (state_of (m st)))
    | None => state_of (m st)
    end.
Proof.
  unfold_m. destruct (m st) as [[[a|] st1] l1]; cbn; [|reflexivity].
  destruct (k a st1) as [[b st2] l2]. reflexivity.
Qed.

Lemma returns_bind {A B} (m : M A) (k : A → M B) st :
  returns ((m ≫= k) st)
  ↔ ∃ a, (m st).1.1 = Some a ∧ returns (k a (state_of (m st))).
Proof.
  unfold returns. unfold_m. destruct (m st) as [[[a|] st1] l1]; cbn.
  - destruct (k a st1) as [[b st2] l2] eqn:Hk. cbn. split.
    + intros Hb. exists a. by rewrite Hk.
    + intros (a' & [= <-] & Hb). by rewrite Hk in Hb.
  - split; [by intros [? ?]|by intros (? & ? & _)].
Qed.

Lemma step_close st ws :
  step (ev_close ws) st
  = (Some tt, torn_down ws (λ _, CLOSED) st,
     match closure st ws with
     | Some (room, _) =>
         calls_of (broadcastStatus room (torn_down ws (λ _, CLOSED) st))
     | None => []
     end).
Proof.
  cbn [step]. unfold torn_down. unfold_m. cbn -[on_close closure].
  fold (moved ws (λ _, CLOSED) st). rewrite closure_moved.
  destruct (closure st ws) as [[room role]|]; [|reflexivity].
  rewrite on_close_eq. reflexivity.
Qed.

Lemma step_error st ws :
  step (ev_error ws) st
  = (match closure st ws with
     | Some _ => Some tt
     | None => if bool_decide (ws < length (sockets st)) then None else Some tt
     end,
     torn_down ws closing st,
     match closure st ws with
     | Some (room, _) => calls_of (broadcastStatus room (torn_down ws closing st))
     | None => []
     end).
Proof.
  cbn [step]. change on_error with on_close.
  unfold torn_down, unhandled_error. unfold_m. cbn -[on_close closure].
  fold (moved ws closing st). rewrite closure_moved.
  destruct (closure st ws) as [[room role]|].
  - rewrite on_close_eq. reflexivity.
  - unfold moved. cbn. rewrite length_alter. by case_bool_decide.
Qed.

Lemma step_connection st token role :
  step (ev_connection (req_url token role)) st
  = on_connection (req_url token role) st.
Proof. reflexivity. Qed.

Lemma step_message st ws parsed :
  step (ev_message ws parsed) st
  = match closure st ws with
    | Some (room, role) => on_message ws room role parsed st
    | None => (Some tt, st, [])
    end.
Proof.
  unfold step. unfold_m. destruct (closure st ws) as [[room role]|];
    [|reflexivity].
  by destruct (on_message ws room role parsed st) as [[[[]|] st1] l1].
Qed.

Lemma step_message_returns st ws parsed :
  returns (step (ev_message ws parsed) st).
Proof.
  rewrite step_message. destruct (closure st ws) as [[room role]|];
    [|by eexists].
  unfold returns, on_message. unfold_m. destruct parsed as [msg|]; [|by eexists].
  destruct (is_signal msg).
  - cbn -[is_open]. destruct (is_open st _); [|by eexists].
    destruct (option_bind _ _ _ _); by eexists.
  - destruct (is_ping msg); by eexists.
Qed.

Lemma step_message_state st ws parsed :
  state_of (step (ev_message ws parsed) st) = st.
Proof.
  rewrite step_message. destruct (closure st ws) as [[room role]|];
    [apply on_message_state|reflexivity].
Qed.

(** *** Invariant of the event loop *)

Lemma wf_init : wf init.
Proof.
  split.
  - intros token role i. unfold occupant, init. cbn [rooms].
    by rewrite lookup_empty.
  - intros i token role. unfold closure, init. cbn [sockets].
    by rewrite lookup_nil.
Qed.

Lemma wf_moved ws f st : wf st → wf (moved ws f st).
Proof.
  intros [Hs Hc]. split.
  - intros token role i H. rewrite closure_moved. by apply Hs.
  - intros i token role. rewrite closure_moved. apply Hc.
Qed.

Lemma wf_refused st : wf st → wf (refused st).
Proof.
  intros [Hs Hc]. split.
  - intros token role i H. rewrite closure_refused. by apply Hs.
  - intros i token role. rewrite closure_refused. apply Hc.
Qed.

Lemma wf_dropped st : wf st → wf (dropped st).
Proof.
  intros [Hs Hc]. split.
  - intros token role i H. rewrite closure_dropped. by apply Hs.
  - intros i token role. rewrite closure_dropped. apply Hc.
Qed.

Lemma wf_cleared room role st : wf st → wf (cleared room role st).
Proof.
  intros [Hs Hc]. split.
  - intros t r i. rewrite occupant_cleared. case_decide; [done|]. apply Hs.
  - intros i t r H. unfold cleared. cbn [rooms].
    apply lookup_alter_is_Some. by eapply Hc.
Qed.

Lemma wf_admitted token role st : wf st → wf (admitted token role st).
Proof.
  intros [Hs Hc]. split.
  - intros t r i. rewrite occupant_admitted.
    case_decide as Hd.
    + destruct Hd as [-> ->]. intros [= <-]. apply closure_admitted_new.
    + intros H. specialize (Hs _ _ _ H).
      rewrite closure_admitted_ne; [done|].
      apply closure_lt in Hs. lia.
  - intros i t r H. apply room_admitted.
    destruct (decide (i = length (sockets st))) as [->|Hne].
    + rewrite closure_admitted_new in H. left. congruence.
    + rewrite closure_admitted_ne in H by done. right. by eapply Hc.
Qed.

Lemma wf_torn_down ws f st : wf st → wf (torn_down ws f st).
Proof.
  intros H. unfold torn_down.
  destruct (closure st ws) as [[room role]|];
    [apply wf_cleared|]; by apply wf_moved.
Qed.

Lemma step_wf ev st : wf st → wf (state_of (step ev st)).
Proof.
  intros H. destruct ev as [[|token role]|ws parsed|ws|ws|ws].
  - by apply wf_dropped.
  - rewrite step_connection.
    destruct (rejected token role) eqn:Hrej.
    + rewrite on_connection_rejected by done. by apply wf_refused.
    + apply rejected_false_inv in Hrej as (t & r & -> & Ht & ->).
      rewrite on_connection_accepted by done. by apply wf_admitted.
  - by rewrite step_message_state.
  - by apply wf_moved.
  - rewrite step_close. by apply wf_torn_down.
  - rewrite step_error. by apply wf_torn_down.
Qed.

Lemma run_wf evs st : wf st → wf (state_of (run evs st)).
Proof.
  revert st. induction evs as [|ev evs IH]; intros st H; [exact H|].
  cbn [run]. rewrite state_bind.
  destruct (step ev st).1.1; [apply IH|]; by apply step_wf.
Qed.

Lemma reachable_wf st : reachable st → wf st.
Proof. intros (evs & _ & <-). apply run_wf, wf_init. Qed.

(** *** Eviction *)

Lemma is_open_arrived token st p :
  p < length (sockets st) →
  is_open (arrived token st) (Some p) = is_open st (Some p).
Proof.
  intros Hlt. unfold is_open, arrived. cbn [sockets]. by rewrite lookup_app_l.
Qed.

Lemma occupant_lt st token role p :
  wf st → occupant st token role = Some p → p < length (sockets st).
Proof. intros [Hs _] H. eapply closure_lt. by apply Hs. Qed.

Lemma eviction_eq st token role :
  wf st →
  eviction token role st
  = match occupant st token role with
    | Some p => if is_open st (Some p)
                then [Close p 4000 "Replaced by new connection"] else []
    | None => []
    end.
Proof.
  intros Hwf. unfold eviction. rewrite occupant_arrived.
  destruct (occupant st token role) as [p|] eqn:Hp; [|reflexivity].
  rewrite is_open_arrived; [reflexivity|]. by eapply occupant_lt.
Qed.

Lemma fmap_alter_readyState (g : Socket → Socket) j (l : list Socket) i :
  (∀ s, readyState (g s) = readyState s) →
  readyState <$> alter g j l !! i = readyState <$> l !! i.
Proof.
  intros Hg. destruct (decide (j = i)) as [->|Hne].
  - rewrite list_lookup_alter_eq. destruct (l !! i); cbn; [by rewrite Hg|done].
  - by rewrite list_lookup_alter_ne.
Qed.

Lemma broadcast_installed token role st t :
  calls_of (broadcastStatus t (installed token role st))
  = calls_of (broadcastStatus t (admitted token role st)).
Proof.
  apply broadcastStatus_ext; [reflexivity|].
  intros i. unfold admitted. cbn [sockets].
  by rewrite fmap_alter_readyState.
Qed.

Lemma is_open_admitted_new token role st :
  wf st → is_open (admitted token role st) (Some (length (sockets st))) = true.
Proof.
  intros Hwf. unfold is_open, admitted. cbn [sockets].
  rewrite list_lookup_alter_eq.
  assert (Hnew : (sockets st ++ [mkSocket OPEN None]) !! length (sockets st)
                 = Some (mkSocket OPEN None)) by (by apply list_lookup_middle).
  unfold installed, close_socket. cbn [sockets]. rewrite occupant_arrived.
  destruct (occupant st token role) as [p|] eqn:Hp;
    [destruct (is_open (arrived token st) (Some p))|];
    cbn [arrived sockets]; rewrite ?Hnew; try reflexivity.
  apply (occupant_lt _ _ _ _ Hwf) in Hp.
  rewrite list_lookup_alter_ne by lia. rewrite Hnew. reflexivity.
Qed.

Lemma is_open_admitted_evicted token role st p :
  wf st → occupant st token role = Some p → is_open st (Some p) = true →
  is_open (admitted token role st) (Some p) = false.
Proof.
  intros Hwf Hp Hopen. pose proof (occupant_lt _ _ _ _ Hwf Hp) as Hlt.
  unfold is_open, admitted. cbn [sockets].
  rewrite list_lookup_alter_ne by lia.
  unfold installed, close_socket. cbn [sockets].
  rewrite occupant_arrived, Hp, is_open_arrived, Hopen by done.
  rewrite list_lookup_alter_eq. cbn [arrived sockets].
  destruct ((sockets st ++ [mkSocket OPEN None]) !! p) as [s|]; [|reflexivity].
  cbn. apply bool_decide_eq_false. by destruct (readyState s).
Qed.

(** *** Frames of the listeners *)

Lemma broadcast_calls_status token st c :
  c ∈ calls_of (broadcastStatus token st) →
  ∃ ws d w, c = Send ws (frame_status d w).
Proof.
  rewrite broadcastStatus_eq. cbn [calls_of snd].
  destruct (rooms st !! token) as [room|]; [|by intros ?%elem_of_nil].
  intros Hc. apply list_elem_of_In, in_map_iff in Hc as (ws & <- & _). eauto.
Qed.

Lemma is_signal_true msg name :
  prop msg "type" = Some (JStr "signal") →
  prop msg "name" = Some (JStr name) →
  name = "signal-1" ∨ name = "signal-2" →
  is_signal msg = true.
Proof.
  intros Ht Hn Hname. unfold is_signal.
  rewrite (closure_Some_truthy _ _ _ Ht), Ht, Hn.
  destruct Hname as [-> | ->]; reflexivity.
Qed.

Lemma peer_of_ne role : peer_of role ≠ role.
Proof. by destruct role. Qed.

Lemma on_message_calls ws room role parsed st c :
  c ∈ calls_of (on_message ws room role parsed st) → is_status c = false.
Proof.
  unfold on_message. unfold_m. destruct parsed as [msg|].
  - destruct (is_signal msg).
    + cbn -[is_open]. destruct (is_open st _).
      * destruct (option_bind _ _ _ _); cbn;
          [intros ->%list_elem_of_singleton; reflexivity|by intros ?%elem_of_nil].
      * intros ->%list_elem_of_singleton. reflexivity.
    + destruct (is_ping msg); cbn;
        [intros ->%list_elem_of_singleton; reflexivity|by intros ?%elem_of_nil].
  - intros ->%list_elem_of_singleton. reflexivity.
Qed.

Lemma step_message_calls st ws parsed c :
  c ∈ calls_of (step (ev_message ws parsed) st) → is_status c = false.
Proof.
  rewrite step_message. destruct (closure st ws) as [[room role]|].
  - apply on_message_calls.
  - by intros ?%elem_of_nil.
Qed.

(** *** Teardown *)

(** A teardown of a socket admitted into a slot empties that slot,
    whatever it holds. *)
Lemma teardown_clears_slot st ws room role :
  closure st ws = Some (room, role) →
  occupant (state_of (step (ev_close ws) st)) room role = None
  ∧ occupant (state_of (step (ev_error ws) st)) room role = None.
Proof.
  intros H. rewrite step_close, step_error.
  cbn [state_of fst snd]. unfold torn_down. rewrite H.
  rewrite !occupant_cleared, !decide_True by done. done.
Qed.

Lemma reachable_paired : reachable st_paired.
Proof. eexists. split; [|reflexivity]. vm_compute. by eexists. Qed.

Lemma reachable_alone : reachable st_alone.
Proof. eexists. split; [|reflexivity]. vm_compute. by eexists. Qed.

(** *** Runs of the event loop *)

(** A desktop client connects: acknowledgment, then status. *)
Example run_desktop_connects :
  calls_of (run [ev_connection (req_url (Some "abc") (Some "desktop"))] init)
  = [Send 0 (frame_connected "desktop" "abc");
     Send 0 (frame_status true false)].
Proof. vm_compute. reflexivity. Qed.

(** The web client joins: both are told that both are present. *)
Example run_web_joins :
  calls_of (step (ev_connection (req_url (Some "abc") (Some "web"))) st_alone)
  = [Send 1 (frame_connected "web" "abc");
     Send 0 (frame_status true true);
     Send 1 (frame_status true true)].
Proof. vm_compute. reflexivity. Qed.

(** A frame that does not parse, then a ping, on the same socket. *)
Example run_bad_frame_then_ping :
  calls_of (run [ev_message 0 None;
                 ev_message 0 (Some (JObj [("type", JStr "ping")]))] st_paired)
  = [Send 0 (frame_error "Invalid JSON"); Send 0 frame_pong].
Proof. vm_compute. reflexivity. Qed.

(** ** The specification, statement by statement *)

(** C1 (the code departs from it): socket 2 has replaced socket 0 in
    the desktop slot of "abc" and is open.  The ['close'] event of
    socket 0, which comes after, empties the slot all the same: the web
    client is told [desktop: false], and its next signal is answered
    with "Peer not connected". *)
Theorem C1_teardown_clears_replacement :
  occupant st_replaced "abc" role_desktop = Some 2
  ∧ is_open st_replaced (Some 2) = true
  ∧ closure st_replaced 0 = Some ("abc", role_desktop)
  ∧ occupant (state_of (step (ev_close 0) st_replaced)) "abc" role_desktop = None
  ∧ is_open (state_of (step (ev_close 0) st_replaced)) (Some 2) = true
  ∧ calls_of (step (ev_close 0) st_replaced) = [Send 1 (frame_status false true)]
  ∧ calls_of (step (ev_message 1 (Some (frame_signal (JStr "signal-1"))))
                (state_of (step (ev_close 0) st_replaced)))
    = [Send 1 (frame_error "Peer not connected")].
Proof. vm_compute. repeat split. Qed.



(** A connection whose URL parses and whose token is missing or empty,
    or whose role is missing or is neither "desktop" nor "web", is sent
    one frame [{type: 'error', message: 'Invalid token or role'}] and
    then closed with code 1008 and the reason "Invalid token/role"; it
    gets no listeners, [rooms] is left as it was and so is every other
    socket, and the listener returns. *)
Lemma rejected_admission st token role :
  (token = None ∨ token = Some "")
  ∨ role = None ∨ (role ≠ Some "desktop" ∧ role ≠ Some "web") →
  on_connection (req_url token role) st
  = (Some tt,
     mkServer (rooms st) (sockets st ++ [mkSocket CLOSING None]),
     [Send (length (sockets st))
        (JObj [("type", JStr "error");
               ("message", JStr "Invalid token or role")]);
      Close (length (sockets st)) 1008 "Invalid token/role"]).
Proof. intros H. apply rejected_true in H. by apply on_connection_rejected. Qed.

(** C3 (the code departs from it): a connection whose request gives no
    URL has no token, and it is not refused: the listener throws at
    [new URL] before the guard, no error frame is sent, the socket is
    not closed, and the exception, which nothing catches, ends the
    process.  (With a URL that parses, [rejected_admission] is what the
    claim says.) *)
Theorem C3_bad_url_ends_process st :
  ¬ returns (on_connection req_bad_url st)
  ∧ calls_of (on_connection req_bad_url st) = []
  ∧ state_of (on_connection req_bad_url st)
    = mkServer (rooms st) (sockets st ++ [mkSocket OPEN None])
  ∧ ∀ evs, run (ev_connection req_bad_url :: evs) st
           = on_connection req_bad_url st.
Proof.
  rewrite on_connection_bad_url. split; [by intros [? ?]|].
  split; [reflexivity|]. split; [reflexivity|].
  intros evs. cbn [run step]. unfold_m. by rewrite on_connection_bad_url.
Qed.

(** C4: a frame of type 'signal' named 'signal-1' or 'signal-2' that
    arrives on an admitted socket changes no state.  If the slot of the
    other role in the sender's room holds an open socket, that socket
    is sent the envelope [{type: 'signal', name}] and nothing else is
    sent; the peer is never the sender itself.  Otherwise the sender is
    sent one frame [{type: 'error', message: 'Peer not connected'}] and
    the signal is gone.  The listener returns either way. *)
Theorem C4_signal_routing st ws room role msg name :
  reachable st →
  closure st ws = Some (room, role) →
  prop msg "type" = Some (JStr "signal") →
  prop msg "name" = Some (JStr name) →
  name = "signal-1" ∨ name = "signal-2" →
  let peer := occupant st room (peer_of role) in
  exec (step (ev_message ws (Some msg))) st
  = (st,
     match peer with
     | Some p =>
         if is_open st peer
         then [Send p (JObj [("type", JStr "signal"); ("name", JStr name)])]
         else [Send ws (JObj [("type", JStr "error");
                              ("message", JStr "Peer not connected")])]
     | None => [Send ws (JObj [("type", JStr "error");
                               ("message", JStr "Peer not connected")])]
     end)
  ∧ peer ≠ Some ws
  ∧ returns (step (ev_message ws (Some msg)) st).
Proof.
  intros Hreach Hws Ht Hn Hname peer. apply reachable_wf in Hreach as [Hslot _].
  split; [|split; [|apply step_message_returns]].
  - unfold exec. rewrite step_message, Hws. unfold on_message.
    rewrite (is_signal_true _ _ Ht Hn Hname). subst peer. unfold occupant.
    unfold_m. cbn -[is_open]. rewrite Hn.
    destruct (option_bind _ _ _ _) as [p|]; [|reflexivity].
    destruct (is_open st (Some p)); reflexivity.
  - intros Hpeer. apply Hslot in Hpeer. rewrite Hws in Hpeer.
    injection Hpeer as Hrole. symmetry in Hrole. by apply peer_of_ne in Hrole.
Qed.

Lemma C4_signal_routing_witness :
  exec (step (ev_message 0 (Some (JObj [("type", JStr "signal");
                                        ("name", JStr "signal-1")])))) st_paired
  = (st_paired,
     [Send 1 (JObj [("type", JStr "signal"); ("name", JStr "signal-1")])])
  ∧ Some 1 ≠ Some 0
  ∧ returns (step (ev_message 0 (Some (JObj [("type", JStr "signal");
                                             ("name", JStr "signal-1")])))
               st_paired).
Proof.
  exact (C4_signal_routing st_paired 0 "abc" role_desktop
           (JObj [("type", JStr "signal"); ("name", JStr "signal-1")])
           "signal-1" reachable_paired eq_refl eq_refl eq_refl
           (or_introl eq_refl)).
Defined.

(** C5: a connection with a non-empty token and the role "desktop" or
    "web" is admitted.  If the slot held an open socket, that socket is
    closed with code 4000 and the reason "Replaced by new connection",
    and is no longer open afterwards.  The new socket is then in the
    slot, open, with its listeners registered; it is sent one frame
    [{type: 'connected', role, token}] with its role and token, and a
    status broadcast for the token follows, computed in the state the
    admission ends in (all that the broadcast sends are status frames,
    so the [connected] frame is the only one). *)
Theorem C5_admission st token role :
  reachable st → token ≠ "" →
  let ws := length (sockets st) in
  let prev := occupant st token role in
  let st' :=
    state_of (on_connection (req_url (Some token) (Some (role_name role))) st) in
  calls_of (on_connection (req_url (Some token) (Some (role_name role))) st)
  = match prev with
    | Some p => if is_open st prev
                then [Close p 4000 "Replaced by new connection"] else []
    | None => []
    end
    ++ Send ws (JObj [("type", JStr "connected");
                      ("role", JStr (role_name role));
                      ("token", JStr token)])
    :: calls_of (broadcastStatus token st')
  ∧ (∀ p, prev = Some p → is_open st prev = true → is_open st' prev = false)
  ∧ occupant st' token role = Some ws
  ∧ is_open st' (Some ws) = true
  ∧ closure st' ws = Some (token, role)
  ∧ (∀ c, c ∈ calls_of (broadcastStatus token st') → is_status c = true).
Proof.
  intros Hreach Ht ws prev st'. apply reachable_wf in Hreach as Hwf.
  subst st'. rewrite on_connection_accepted by done.
  cbn [state_of calls_of fst snd].
  split; [|split; [|split; [|split; [|split]]]].
  - rewrite eviction_eq, broadcast_installed by done.
    subst prev ws. by destruct (occupant st token role).
  - intros p Hp Hopen. subst prev. rewrite Hp in *.
    by apply is_open_admitted_evicted.
  - rewrite occupant_admitted, decide_True by done. reflexivity.
  - by apply is_open_admitted_new.
  - apply closure_admitted_new.
  - intros c (i & d & w & ->)%broadcast_calls_status. reflexivity.
Qed.

Lemma C5_admission_witness :
  calls_of (on_connection (req_url (Some "abc") (Some "desktop")) st_alone)
  = [Close 0 4000 "Replaced by new connection";
     Send 1 (JObj [("type", JStr "connected"); ("role", JStr "desktop");
                   ("token", JStr "abc")]);
     Send 1 (JObj [("type", JStr "status"); ("desktop", JBool true);
                   ("web", JBool false)])]
  ∧ is_open (state_of (on_connection (req_url (Some "abc") (Some "desktop")) st_alone))
      (Some 0) = false
  ∧ occupant (state_of (on_connection (req_url (Some "abc") (Some "desktop")) st_alone))
      "abc" role_desktop = Some 1.
Proof.
  destruct (C5_admission st_alone "abc" role_desktop reachable_alone)
    as (Hcalls & Hevict & Hslot & _); [discriminate|].
  split; [|split].
  - refine (eq_trans Hcalls _). vm_compute. reflexivity.
  - apply (Hevict 0); reflexivity.
  - exact Hslot.
Defined.

(** C6 (the code departs from it): after the late ['close'] of the
    replaced socket 0 has emptied the desktop slot of "abc" (see C1),
    a third desktop client is admitted without an eviction.  Sockets 2
    and 3 were both admitted as the desktop of "abc", both are open,
    and the server closed neither: the only socket it ever closed is
    socket 0. *)
Theorem C6_two_open_desktops :
  returns (run evs_displaced init)
  ∧ closure st_displaced 2 = Some ("abc", role_desktop)
  ∧ is_open st_displaced (Some 2) = true
  ∧ closure st_displaced 3 = Some ("abc", role_desktop)
  ∧ is_open st_displaced (Some 3) = true
  ∧ occupant st_displaced "abc" role_desktop = Some 3
  ∧ closed_by_server (calls_of (run evs_displaced init)) = [0].
Proof. vm_compute. repeat split. by eexists. Qed.

(** C7: a frame that does not parse makes the listener send one frame
    [{type: 'error', message: 'Invalid JSON'}] to the sender and
    return; the state (rooms, slots, every socket and its ready state)
    is left as it was and nobody else is sent anything. *)
Theorem C7_parse_failure st ws room role :
  closure st ws = Some (room, role) →
  exec (step (ev_message ws None)) st
  = (st, [Send ws (JObj [("type", JStr "error");
                         ("message", JStr "Invalid JSON")])])
  ∧ returns (step (ev_message ws None) st).
Proof.
  intros H. split; [|apply step_message_returns].
  unfold exec. rewrite step_message, H. reflexivity.
Qed.

Lemma C7_parse_failure_witness :
  exec (step (ev_message 0 None)) st_paired
  = (st_paired, [Send 0 (JObj [("type", JStr "error");
                               ("message", JStr "Invalid JSON")])])
  ∧ returns (step (ev_message 0 None) st_paired).
Proof.
  apply (C7_parse_failure st_paired 0 "abc" role_desktop). reflexivity.
Defined.



(** C9: whatever the frame (unparseable, signal, ping or anything
    else) and whatever the socket, the ['message'] listener leaves the
    whole state as it was (rooms, slots, sockets) and sends no status
    frame; an event that does send a status frame is a connection, a
    close or an error. *)
Theorem C9_routing_never_broadcasts st ws parsed :
  state_of (step (ev_message ws parsed) st) = st
  ∧ (∀ c, c ∈ calls_of (step (ev_message ws parsed) st) → is_status c = false)
  ∧ (∀ ev c, c ∈ calls_of (step ev st) → is_status c = true →
       match ev with
       | ev_connection _ | ev_close _ | ev_error _ => True
       | ev_message _ _ | ev_closing _ => False
       end).
Proof.
  split; [apply step_message_state|]. split; [apply step_message_calls|].
  intros [req|ws' parsed'|ws'|ws'|ws'] c Hc Hs; try exact I.
  - apply step_message_calls in Hc. congruence.
  - by apply elem_of_nil in Hc.
Qed.



(** ** Further properties of the server *)

(** *** Heartbeat *)

(** X1: a parsed frame of type 'ping' on an admitted socket is answered
    with one frame [{type: 'pong'}] to the sender; nothing is forwarded
    and the state is left as it was. *)
Theorem X1_ping_pong st ws room role msg :
  closure st ws = Some (room, role) →
  prop msg "type" = Some (JStr "ping") →
  exec (step (ev_message ws (Some msg))) st
  = (st, [Send ws (JObj [("type", JStr "pong")])]).
Proof.
  intros H Ht. unfold exec. rewrite step_message, H. unfold on_message.
  unfold is_signal, is_ping.
  rewrite (closure_Some_truthy _ _ _ Ht), Ht. reflexivity.
Qed.

Lemma X1_ping_pong_witness :
  exec (step (ev_message 1 (Some (JObj [("type", JStr "ping")])))) st_paired
  = (st_paired, [Send 1 (JObj [("type", JStr "pong")])]).
Proof.
  apply (X1_ping_pong st_paired 1 "abc" role_web); reflexivity.
Defined.

(** *** Who is admitted *)

Lemma closure_fresh st : closure st (length (sockets st)) = None.
Proof. unfold closure. by rewrite lookup_ge_None_2. Qed.

(** X2: the listeners are registered on the new socket exactly when
    [new URL] does not throw, the token is a non-empty string and the
    role is "desktop" or "web"; they then close over that token and
    that role. *)
Theorem X2_admitted_iff st req :
  (is_Some (closure (state_of (on_connection req st)) (length (sockets st)))
   ↔ ∃ t r, req = req_url (Some t) (Some (role_name r)) ∧ t ≠ "")
  ∧ ∀ t r, closure (state_of (on_connection req st)) (length (sockets st))
           = Some (t, r) →
           req = req_url (Some t) (Some (role_name r)).
Proof.
  destruct req as [|token role].
  - rewrite on_connection_bad_url. cbn [state_of fst snd].
    rewrite closure_dropped, closure_fresh. split; [|done].
    split; [by intros [? ?]|by intros (? & ? & ? & _)].
  - destruct (rejected token role) eqn:Hrej.
    + rewrite on_connection_rejected by done. cbn [state_of fst snd].
      rewrite closure_refused, closure_fresh. split; [|done].
      split; [by intros [? ?]|].
      intros (t & r & [= -> ->] & Ht). by rewrite rejected_false in Hrej.
    + apply rejected_false_inv in Hrej as (t & r & -> & Ht & ->).
      rewrite on_connection_accepted by done. cbn [state_of fst snd].
      rewrite closure_admitted_new. split.
      * split; [by eauto|by eexists].
      * by intros t' r' [= <- <-].
Qed.

(** X3: a connection that fails the guard gets no listener.  Whatever
    frame it sends later, and when it closes, the server makes no call,
    leaves every room as it was and goes on.  When it fails, the
    ['error'] event has no listener either: the server makes no call
    and the exception ends the process. *)
Theorem X3_rejected_socket st token role parsed :
  (token = None ∨ token = Some "")
  ∨ role = None ∨ (role ≠ Some "desktop" ∧ role ≠ Some "web") →
  let ws := length (sockets st) in
  let st' := state_of (on_connection (req_url token role) st) in
  exec (step (ev_message ws parsed)) st' = (st', [])
  ∧ returns (step (ev_message ws parsed) st')
  ∧ calls_of (step (ev_close ws) st') = []
  ∧ rooms (state_of (step (ev_close ws) st')) = rooms st
  ∧ returns (step (ev_close ws) st')
  ∧ calls_of (step (ev_error ws) st') = []
  ∧ ¬ returns (step (ev_error ws) st').
Proof.
  intros H ws st'. apply rejected_true in H.
  assert (Hst : st' = refused st)
    by (subst st'; by rewrite on_connection_rejected).
  assert (Hc : closure st' ws = None)
    by (rewrite Hst, closure_refused; apply closure_fresh).
  assert (Hlt : ws < length (sockets st'))
    by (rewrite Hst; unfold refused; cbn; rewrite length_app; cbn; lia).
  split; [unfold exec; by rewrite step_message, Hc|].
  split; [apply step_message_returns|].
  rewrite step_close, step_error, Hc. cbn [state_of calls_of fst snd].
  unfold torn_down. rewrite Hc, Hst. repeat split; [by eexists|].
  rewrite bool_decide_eq_true_2; [by intros [? ?]|].
  by rewrite <- Hst.
Qed.

Lemma X3_rejected_socket_witness :
  exec (step (ev_message 2 None))
       (state_of (on_connection (req_url (Some "abc") (Some "phone")) st_paired))
  = (state_of (on_connection (req_url (Some "abc") (Some "phone")) st_paired), [])
  ∧ calls_of (step (ev_close 2)
                (state_of (on_connection (req_url (Some "abc") (Some "phone"))
                             st_paired)))
    = []
  ∧ ¬ returns (step (ev_error 2)
                 (state_of (on_connection (req_url (Some "abc") (Some "phone"))
                              st_paired))).
Proof.
  destruct (X3_rejected_socket st_paired (Some "abc") (Some "phone") None)
    as (Hm & _ & Hc & _ & _ & _ & He); [right; right; split; discriminate|].
  exact (conj Hm (conj Hc He)).
Defined.

(** *** Room registry *)

Lemma getOrCreateRoom_eq token st :
  getOrCreateRoom token st
  = (Some token, mkServer (with_room token st) (sockets st), []).
Proof.
  unfold getOrCreateRoom, with_room. unfold_m.
  destruct (bool_decide (is_Some (rooms st !! token))); cbn; [|reflexivity].
  by destruct st.
Qed.

(** X5: [getOrCreateRoom token] returns the room of [token] and calls
    nothing.  A room that exists is kept as it is (its slots are not
    reset), a missing one is created with both slots empty, the rooms
    of other tokens and the sockets are not touched, and a second call
    changes nothing more. *)
Theorem X5_getOrCreateRoom token st :
  (getOrCreateRoom token st).1.1 = Some token
  ∧ calls_of (getOrCreateRoom token st) = []
  ∧ sockets (state_of (getOrCreateRoom token st)) = sockets st
  ∧ (∀ t, rooms (state_of (getOrCreateRoom token st)) !! t
          = if decide (token = t)
            then Some (default (mkRoom None None) (rooms st !! token))
            else rooms st !! t)
  ∧ state_of (getOrCreateRoom token (state_of (getOrCreateRoom token st)))
    = state_of (getOrCreateRoom token st).
Proof.
  rewrite !getOrCreateRoom_eq. cbn [state_of calls_of fst snd].
  repeat split.
  - intros t. cbn [rooms]. apply lookup_with_room.
  - cbn [sockets]. f_equal.
    unfold with_room at 1. cbn [rooms].
    rewrite bool_decide_eq_true_2; [reflexivity|].
    rewrite lookup_with_room, decide_True by done. by eexists.
Qed.

Lemma dom_with_room token st :
  dom (with_room token st) = dom (rooms st) ∪ {[ token ]}.
Proof.
  unfold with_room. case_bool_decide as Hs.
  - apply elem_of_dom in Hs. rewrite (comm_L (∪)). symmetry.
    apply subseteq_union_1_L. by apply singleton_subseteq_l.
  - rewrite dom_insert_L. apply (comm_L (∪)).
Qed.

Lemma step_dom ev st :
  dom (rooms (state_of (step ev st))) = dom (rooms st) ∪ admits ev.
Proof.
  destruct ev as [[|token role]|ws parsed|ws|ws|ws]; cbn [admits].
  - cbn. by rewrite (right_id_L ∅ (∪)).
  - rewrite step_connection. destruct (rejected token role) eqn:Hrej.
    + rewrite on_connection_rejected by done. cbn [state_of fst snd refused rooms].
      destruct token; [rewrite Hrej|]; by rewrite (right_id_L ∅ (∪)).
    + apply rejected_false_inv in Hrej as Hinv.
      destruct Hinv as (t & r & -> & Ht & ->). rewrite Hrej.
      rewrite on_connection_accepted by done. cbn [state_of fst snd].
      rewrite rooms_admitted, dom_alter_L. apply dom_with_room.
  - by rewrite step_message_state, (right_id_L ∅ (∪)).
  - cbn. by rewrite (right_id_L ∅ (∪)).
  - rewrite step_close. cbn [state_of fst snd]. unfold torn_down.
    destruct (closure st ws) as [[room role]|]; cbn [cleared moved rooms];
      by rewrite ?dom_alter_L, (right_id_L ∅ (∪)).
  - rewrite step_error. cbn [state_of fst snd]. unfold torn_down.
    destruct (closure st ws) as [[room role]|]; cbn [cleared moved rooms];
      by rewrite ?dom_alter_L, (right_id_L ∅ (∪)).
Qed.

(** X4: no event removes a room, and a room is made by an admission
    only: after any sequence of events, the tokens that had a room
    still have one, and a token that has a room had one before or is
    the token of a connection that passed the guard in between.  When
    the process has lived through all the events, these are exactly
    the tokens that have a room. *)
Theorem X4_rooms_of_admitted_tokens evs st :
  dom (rooms st) ⊆ dom (rooms (state_of (run evs st)))
  ∧ dom (rooms (state_of (run evs st))) ⊆ dom (rooms st) ∪ tokens_admitted evs
  ∧ (returns (run evs st) →
     dom (rooms (state_of (run evs st))) = dom (rooms st) ∪ tokens_admitted evs).
Proof.
  revert st. induction evs as [|ev evs IH]; intros st.
  - unfold tokens_admitted. cbn. rewrite (right_id_L ∅ (∪)). done.
  - unfold tokens_admitted. rewrite fmap_cons, union_list_cons.
    fold (tokens_admitted evs). rewrite (assoc_L (∪)), <- step_dom.
    cbn [run]. split; [|split].
    + rewrite state_bind.
      destruct (step ev st).1.1;
        [etrans; [|apply IH]|]; rewrite step_dom; apply union_subseteq_l.
    + rewrite state_bind.
      destruct (step ev st).1.1; [apply IH|apply union_subseteq_l].
    + intros ([] & Hstep & Hrest)%returns_bind.
      rewrite state_bind, Hstep. by apply IH.
Qed.

Lemma X4_rooms_of_admitted_tokens_witness :
  dom (rooms (state_of (run [ev_connection (req_url (Some "xyz") (Some "web"));
                             ev_connection (req_url (Some "xyz") (Some "phone"));
                             ev_close 0] st_paired)))
  = dom (rooms st_paired)
    ∪ tokens_admitted [ev_connection (req_url (Some "xyz") (Some "web"));
                       ev_connection (req_url (Some "xyz") (Some "phone"));
                       ev_close 0].
Proof.
  apply (X4_rooms_of_admitted_tokens _ st_paired). vm_compute. by eexists.
Defined.

(** *** Slots *)

(** X6: how an event changes the slots.  An admitted connection puts
    the new socket into the slot of its token and role; a ['close'] or
    ['error'] event of a socket with listeners empties the slot the
    listeners closed over; every other slot, and every slot under any
    other event, holds what it held. *)
Theorem X6_slot_after_event ev st t r :
  occupant (state_of (step ev st)) t r
  = match event_slot st ev with
    | Some (t0, r0, v) => if decide (t0 = t ∧ r0 = r) then v else occupant st t r
    | None => occupant st t r
    end.
Proof.
  destruct ev as [[|token role]|ws parsed|ws|ws|ws]; cbn [event_slot].
  - reflexivity.
  - rewrite step_connection. destruct (rejected token role) eqn:Hrej.
    + by rewrite on_connection_rejected.
    + apply rejected_false_inv in Hrej as (t0 & r0 & -> & Ht & ->).
      rewrite role_of_name, on_connection_accepted by done.
      cbn [state_of fst snd]. apply occupant_admitted.
  - by rewrite step_message_state.
  - reflexivity.
  - rewrite step_close. cbn [state_of fst snd]. unfold torn_down.
    destruct (closure st ws) as [[room role]|]; [|reflexivity].
    rewrite occupant_cleared. reflexivity.
  - rewrite step_error. cbn [state_of fst snd]. unfold torn_down.
    destruct (closure st ws) as [[room role]|]; [|reflexivity].
    rewrite occupant_cleared. reflexivity.
Qed.

(** *** Listeners *)

Lemma closure_step ev st i e :
  closure st i = Some e → closure (state_of (step ev st)) i = Some e.
Proof.
  intros H. destruct ev as [[|token role]|ws parsed|ws|ws|ws].
  - change (closure (dropped st) i = Some e). by rewrite closure_dropped.
  - rewrite step_connection. destruct (rejected token role) eqn:Hrej.
    + rewrite on_connection_rejected by done. cbn [state_of fst snd].
      by rewrite closure_refused.
    + apply rejected_false_inv in Hrej as (t0 & r0 & -> & Ht & ->).
      rewrite on_connection_accepted by done. cbn [state_of fst snd].
      rewrite closure_admitted_ne; [done|]. apply closure_lt in H. lia.
  - by rewrite step_message_state.
  - change (closure (moved ws closing st) i = Some e).
    by rewrite closure_moved.
  - rewrite step_close. cbn [state_of fst snd]. unfold torn_down.
    destruct (closure st ws) as [[room role]|];
      [change (closure (moved ws (λ _, CLOSED) st) i = Some e)|];
      by rewrite closure_moved.
  - rewrite step_error. cbn [state_of fst snd]. unfold torn_down.
    destruct (closure st ws) as [[room role]|];
      [change (closure (moved ws closing st) i = Some e)|];
      by rewrite closure_moved.
Qed.

(** X9: the token and the role a socket was admitted with stay its
    token and role whatever happens next: no event registers other
    listeners on it or removes them. *)
Theorem X9_listeners_are_fixed evs st ws room role :
  closure st ws = Some (room, role) →
  closure (state_of (run evs st)) ws = Some (room, role).
Proof.
  revert st. induction evs as [|ev evs IH]; intros st H; [exact H|].
  cbn [run]. rewrite state_bind.
  destruct (step ev st).1.1; [apply IH|]; by apply closure_step.
Qed.

Lemma X9_listeners_are_fixed_witness :
  closure (state_of (run [ev_connection (req_url (Some "abc") (Some "desktop"));
                          ev_close 0;
                          ev_message 0 None] st_paired)) 0
  = Some ("abc", role_desktop).
Proof.
  apply (X9_listeners_are_fixed _ st_paired 0 "abc" role_desktop). reflexivity.
Defined.

(** *** Who is sent what *)

Lemma map_is_fmap {A B} (f : A → B) (l : list A) : map f l = f <$> l.
Proof. induction l as [|x l IH]; [reflexivity|]. cbn. by rewrite IH. Qed.

Lemma elem_open_targets st targets ws :
  ws ∈ open_targets st targets
  ↔ Some ws ∈ targets ∧ is_open st (Some ws) = true.
Proof.
  unfold open_targets. rewrite list_elem_of_omap. split.
  - intros (o & Hin & Ho). destruct (is_open st o) eqn:Hopen; [|done].
    subst o. done.
  - intros [Hin Hopen]. exists (Some ws). by rewrite Hopen.
Qed.

Lemma occupant_room st token room role :
  rooms st !! token = Some room → occupant st token role = slot room role.
Proof. intros H. unfold occupant. by rewrite H. Qed.

Lemma slot_in_targets room ws :
  Some ws ∈ [desktop room; web room] → ∃ role, slot room role = Some ws.
Proof.
  intros [H|H%list_elem_of_singleton]%elem_of_cons.
  - by exists role_desktop.
  - by exists role_web.
Qed.

#[local] Instance Send_inj payload : Inj (=) (=) (λ ws, Send ws payload).
Proof. by intros x y [= ->]. Qed.

Lemma NoDup_open_targets st token room :
  wf st → rooms st !! token = Some room →
  NoDup (open_targets st [desktop room; web room]).
Proof.
  intros [Hs _] Hroom. unfold open_targets. cbn [omap list_omap].
  destruct (is_open st (desktop room)), (is_open st (web room));
    destruct (desktop room) as [d|] eqn:Hd, (web room) as [w|] eqn:Hw;
    try apply NoDup_nil_2; try apply NoDup_singleton.
  apply NoDup_cons. split; [|apply NoDup_singleton].
  intros ->%list_elem_of_singleton.
  pose proof (Hs token role_desktop w) as H1.
  pose proof (Hs token role_web w) as H2.
  rewrite (occupant_room _ _ _ role_desktop Hroom) in H1.
  rewrite (occupant_room _ _ _ role_web Hroom) in H2. cbn in H1, H2.
  specialize (H1 Hd). specialize (H2 Hw). congruence.
Qed.

Lemma broadcast_recipients st token c :
  wf st → c ∈ calls_of (broadcastStatus token st) →
  ∃ ws role d w,
    c = Send ws (frame_status d w)
    ∧ occupant st token role = Some ws
    ∧ is_open st (Some ws) = true
    ∧ closure st ws = Some (token, role).
Proof.
  intros Hwf. rewrite broadcastStatus_eq. cbn [calls_of snd].
  destruct (rooms st !! token) as [room|] eqn:Hroom;
    [|by intros ?%elem_of_nil].
  rewrite map_is_fmap.
  intros (ws & -> & [Hin Hopen]%elem_open_targets)%list_elem_of_fmap_1.
  apply slot_in_targets in Hin as [role Hslot].
  rewrite <- (occupant_room st token room role Hroom) in Hslot.
  exists ws, role. do 2 eexists. repeat split; [done..|].
  by apply Hwf.
Qed.

(** X7: in a reachable state, a status broadcast for a token reaches
    each socket at most once, and only sockets that are open, sit in a
    slot of the room of that token, and were admitted with that token
    and the role of that slot. *)
Theorem X7_broadcast_recipients st token :
  reachable st →
  NoDup (calls_of (broadcastStatus token st))
  ∧ ∀ c, c ∈ calls_of (broadcastStatus token st) →
      ∃ ws role d w,
        c = Send ws (frame_status d w)
        ∧ occupant st token role = Some ws
        ∧ is_open st (Some ws) = true
        ∧ closure st ws = Some (token, role).
Proof.
  intros Hwf%reachable_wf. split; [|intros c; by apply broadcast_recipients].
  rewrite broadcastStatus_eq. cbn [calls_of snd].
  destruct (rooms st !! token) as [room|] eqn:Hroom; [|apply NoDup_nil_2].
  rewrite map_is_fmap. apply (NoDup_fmap_2 _). by eapply NoDup_open_targets.
Qed.

Lemma X7_broadcast_recipients_witness :
  NoDup (calls_of (broadcastStatus "abc" st_paired))
  ∧ ∀ c, c ∈ calls_of (broadcastStatus "abc" st_paired) →
      ∃ ws role d w,
        c = Send ws (frame_status d w)
        ∧ occupant st_paired "abc" role = Some ws
        ∧ is_open st_paired (Some ws) = true
        ∧ closure st_paired ws = Some ("abc", role).
Proof. exact (X7_broadcast_recipients st_paired "abc" reachable_paired). Defined.

Lemma cleared_broadcast st room role c :
  c ∈ calls_of (broadcastStatus room (cleared room role st)) →
  ∃ i d w, c = Send i (JObj [("type", JStr "status");
                             ("desktop", JBool d); ("web", JBool w)])
           ∧ flag_of role d w = false
           ∧ occupant st room (peer_of role) = Some i.
Proof.
  rewrite broadcastStatus_eq. cbn [calls_of snd cleared rooms].
  rewrite lookup_alter_eq. unfold occupant.
  destruct (rooms st !! room) as [[d w]|]; cbn [fmap option_fmap option_map];
    [|by intros ?%elem_of_nil].
  rewrite map_is_fmap.
  intros (i & -> & [Hin _]%elem_open_targets)%list_elem_of_fmap_1.
  exists i. do 2 eexists. split; [reflexivity|].
  destruct role; cbn in Hin |- *.
  - apply elem_of_cons in Hin as [[=]|Hin%list_elem_of_singleton]. done.
  - apply elem_of_cons in Hin as [Hin|[=]%list_elem_of_singleton]. done.
Qed.

(** X10: when a socket with listeners closes or fails, every frame the
    server sends is a status frame [{type: 'status', desktop, web}] in
    which the flag of the socket's role is [false], and it goes to the
    socket in the slot of the other role of the same room. *)
Theorem X10_teardown_status st ws room role c :
  closure st ws = Some (room, role) →
  c ∈ calls_of (step (ev_close ws) st) ∨ c ∈ calls_of (step (ev_error ws) st) →
  ∃ i d w, c = Send i (JObj [("type", JStr "status");
                             ("desktop", JBool d); ("web", JBool w)])
           ∧ flag_of role d w = false
           ∧ occupant st room (peer_of role) = Some i.
Proof.
  intros H. rewrite step_close, step_error.
  cbn [calls_of snd]. unfold torn_down. rewrite H.
  intros [Hc|Hc]; by apply cleared_broadcast in Hc.
Qed.

Lemma X10_teardown_status_witness :
  ∃ i d w, Send 1 (JObj [("type", JStr "status");
                         ("desktop", JBool false); ("web", JBool true)])
           = Send i (JObj [("type", JStr "status");
                           ("desktop", JBool d); ("web", JBool w)])
           ∧ flag_of role_desktop d w = false
           ∧ occupant st_paired "abc" (peer_of role_desktop) = Some i.
Proof.
  apply (X10_teardown_status st_paired 0 "abc" role_desktop); [reflexivity|].
  left. vm_compute. left.
Defined.

Lemma on_message_targets st ws room role parsed c :
  wf st → closure st ws = Some (room, role) →
  c ∈ calls_of (on_message ws room role parsed st) →
  ∃ i p, c = Send i p
         ∧ (i = ws ∨ (closure st i = Some (room, peer_of role)
                      ∧ is_open st (Some i) = true)).
Proof.
  intros [Hs _] Hws. unfold on_message. unfold_m. destruct parsed as [msg|].
  - destruct (is_signal msg).
    + cbn -[is_open].
      destruct (option_bind _ _ _ _) as [p|] eqn:Hp.
      * destruct (is_open st (Some p)) eqn:Hopen;
          intros ->%list_elem_of_singleton; [|by eauto].
        do 2 eexists. split; [reflexivity|].
        right. split; [apply Hs; exact Hp|done].
      * cbn. intros ->%list_elem_of_singleton. eauto.
    + destruct (is_ping msg); cbn;
        [intros ->%list_elem_of_singleton; eauto|by intros ?%elem_of_nil].
  - intros ->%list_elem_of_singleton. eauto.
Qed.

(** X12: in a reachable state, whatever frame arrives on an admitted
    socket, the server only calls [send], and only on the sender or on
    the open socket admitted with the same token and the other role: no
    frame crosses to another room and no socket is closed. *)
Theorem X12_message_stays_in_room st ws room role parsed c :
  reachable st → closure st ws = Some (room, role) →
  c ∈ calls_of (step (ev_message ws parsed) st) →
  ∃ i p, c = Send i p
         ∧ (i = ws ∨ (closure st i = Some (room, peer_of role)
                      ∧ is_open st (Some i) = true)).
Proof.
  intros Hwf%reachable_wf Hws. rewrite step_message, Hws.
  by apply on_message_targets.
Qed.

Lemma X12_message_stays_in_room_witness :
  ∃ i p, Send 1 (frame_signal (JStr "signal-2")) = Send i p
         ∧ (i = 0 ∨ (closure st_paired i = Some ("abc", peer_of role_desktop)
                     ∧ is_open st_paired (Some i) = true)).
Proof.
  apply (X12_message_stays_in_room st_paired 0 "abc" role_desktop
           (Some (frame_signal (JStr "signal-2"))) _ reachable_paired eq_refl).
  vm_compute. left.
Defined.

(** X8: in a reachable state the server closes a socket in two cases
    only, both in the ['connection'] listener: the new socket itself,
    with code 1008, when it fails the guard; and the open socket that
    sits in the slot the new connection asks for, with code 4000.  No
    message, close or error event makes the server close a socket. *)
Theorem X8_close_only_at_admission st ev ws code reason :
  reachable st →
  Close ws code reason ∈ calls_of (step ev st) →
  ∃ token role, ev = ev_connection (req_url token role)
    ∧ ((rejected token role = true ∧ ws = length (sockets st)
        ∧ code = 1008%Z ∧ reason = "Invalid token/role")
       ∨ (∃ t r, token = Some t ∧ role = Some (role_name r)
                 ∧ occupant st t r = Some ws ∧ is_open st (Some ws) = true
                 ∧ code = 4000%Z ∧ reason = "Replaced by new connection")).
Proof.
  intros Hwf%reachable_wf Hin.
  destruct ev as [[|token role]|ws' parsed|ws'|ws'|ws'].
  - by apply elem_of_nil in Hin.
  - exists token, role. split; [reflexivity|].
    rewrite step_connection in Hin. destruct (rejected token role) eqn:Hrej.
    + left. rewrite on_connection_rejected in Hin by done. cbn in Hin.
      apply elem_of_cons in Hin as [[=]|Hin].
      apply list_elem_of_singleton in Hin as [= -> -> ->]. done.
    + right. apply rejected_false_inv in Hrej as (t & r & -> & Ht & ->).
      exists t, r. rewrite on_connection_accepted in Hin by done.
      cbn [calls_of snd] in Hin. rewrite eviction_eq in Hin by done.
      apply elem_of_app in Hin as [Hin|Hin].
      * destruct (occupant st t r) as [p|]; [|by apply elem_of_nil in Hin].
        destruct (is_open st (Some p)) eqn:Hopen; [|by apply elem_of_nil in Hin].
        apply list_elem_of_singleton in Hin as [= -> -> ->]. done.
      * apply elem_of_cons in Hin as [[=]|Hin].
        by apply broadcast_calls_status in Hin as (? & ? & ? & [=]).
  - rewrite step_message in Hin.
    destruct (closure st ws') as [[room role]|] eqn:Hc;
      [|by apply elem_of_nil in Hin].
    by apply (on_message_targets _ _ _ _ _ _ Hwf Hc) in Hin as (? & ? & [=] & _).
  - by apply elem_of_nil in Hin.
  - rewrite step_close in Hin. cbn [calls_of snd] in Hin.
    destruct (closure st ws') as [[room role]|]; [|by apply elem_of_nil in Hin].
    by apply broadcast_calls_status in Hin as (? & ? & ? & [=]).
  - rewrite step_error in Hin. cbn [calls_of snd] in Hin.
    destruct (closure st ws') as [[room role]|]; [|by apply elem_of_nil in Hin].
    by apply broadcast_calls_status in Hin as (? & ? & ? & [=]).
Qed.

Lemma X8_close_only_at_admission_witness :
  ∃ token role,
    ev_connection (req_url (Some "abc") (Some "desktop"))
    = ev_connection (req_url token role)
    ∧ ((rejected token role = true ∧ 0 = length (sockets st_alone)
        ∧ 4000%Z = 1008%Z ∧ "Replaced by new connection" = "Invalid token/role")
       ∨ (∃ t r, token = Some t ∧ role = Some (role_name r)
                 ∧ occupant st_alone t r = Some 0
                 ∧ is_open st_alone (Some 0) = true
                 ∧ 4000%Z = 4000%Z
                 ∧ "Replaced by new connection" = "Replaced by new connection")).
Proof.
  apply (X8_close_only_at_admission st_alone _ 0 4000
           "Replaced by new connection" reachable_alone).
  vm_compute. left.
Defined.

(** X11: a connection that is admitted is sent, after its frame
    [{type: 'connected', role, token}], a frame
    [{type: 'status', desktop, web}] in which the flag of its own role
    is [true]. *)
Theorem X11_admitted_sees_itself st token role :
  reachable st → token ≠ "" →
  ∃ d w before after,
    flag_of role d w = true
    ∧ calls_of (on_connection (req_url (Some token) (Some (role_name role))) st)
      = before
        ++ Send (length (sockets st))
             (JObj [("type", JStr "connected");
                    ("role", JStr (role_name role));
                    ("token", JStr token)])
        :: after
    ∧ Send (length (sockets st))
        (JObj [("type", JStr "status");
               ("desktop", JBool d); ("web", JBool w)]) ∈ after.
Proof.
  intros Hwf%reachable_wf Ht.
  rewrite on_connection_accepted by done. cbn [calls_of snd].
  rewrite broadcast_installed, broadcastStatus_eq. cbn [calls_of snd].
  rewrite rooms_admitted, lookup_alter_eq, lookup_with_room, decide_True by done.
  cbn [fmap option_fmap option_map].
  set (room0 := default (mkRoom None None) (rooms st !! token)).
  set (ws := length (sockets st)).
  exists (bool_decide (is_Some (desktop (set_slot role (Some ws) room0)))),
         (bool_decide (is_Some (web (set_slot role (Some ws) room0)))).
  do 2 eexists. split; [|split; [reflexivity|]].
  - destruct role; reflexivity.
  - rewrite map_is_fmap. apply list_elem_of_fmap. exists ws.
    split; [reflexivity|]. apply elem_open_targets.
    split; [|by apply is_open_admitted_new].
    destruct role; cbn; [left|right; left].
Qed.

Lemma X11_admitted_sees_itself_witness :
  ∃ d w before after,
    flag_of role_web d w = true
    ∧ calls_of (on_connection (req_url (Some "abc") (Some (role_name role_web)))
                  st_alone)
      = before
        ++ Send (length (sockets st_alone))
             (JObj [("type", JStr "connected");
                    ("role", JStr (role_name role_web));
                    ("token", JStr "abc")])
        :: after
    ∧ Send (length (sockets st_alone))
        (JObj [("type", JStr "status");
               ("desktop", JBool d); ("web", JBool w)]) ∈ after.
Proof.
  apply (X11_admitted_sees_itself st_alone "abc" role_web reachable_alone).
  discriminate.
Defined.

(** *** Rooms do not leak *)

(** X13: in a reachable state, every call an event makes is made on
    the socket the event is about, or on a socket that was admitted
    with the token the event is about: nothing is sent to, and nothing
    closes, a socket of another token. *)
Theorem X13_calls_stay_in_room st ev c :
  reachable st →
  c ∈ calls_of (step ev st) →
  target c = event_socket st ev
  ∨ ∃ t r, event_token st ev = Some t ∧ closure st (target c) = Some (t, r).
Proof.
  intros Hwf%reachable_wf Hin.
  destruct ev as [[|token role]|ws parsed|ws|ws|ws];
    cbn [event_socket event_token].
  - by apply elem_of_nil in Hin.
  - rewrite step_connection in Hin. destruct (rejected token role) eqn:Hrej.
    + rewrite on_connection_rejected in Hin by done. cbn in Hin. left.
      apply elem_of_cons in Hin as [->|Hin%list_elem_of_singleton];
        [|subst c]; reflexivity.
    + apply rejected_false_inv in Hrej as (t & r & -> & Ht & ->).
      rewrite on_connection_accepted in Hin by done.
      cbn [calls_of snd] in Hin.
      rewrite eviction_eq, broadcast_installed in Hin by done.
      apply elem_of_app in Hin as [Hin|Hin].
      * right. exists t, r. split; [reflexivity|].
        destruct (occupant st t r) as [p|] eqn:Hp; [|by apply elem_of_nil in Hin].
        destruct (is_open st (Some p)); [|by apply elem_of_nil in Hin].
        apply list_elem_of_singleton in Hin as ->. by apply Hwf.
      * apply elem_of_cons in Hin as [->|Hin]; [by left|].
        apply broadcast_recipients in Hin
          as (i & r' & d & w & -> & _ & _ & Hc); [|by apply wf_admitted].
        cbn [target].
        destruct (decide (i = length (sockets st))) as [->|Hne]; [by left|].
        right. rewrite closure_admitted_ne in Hc by done. eauto.
  - rewrite step_message in Hin.
    destruct (closure st ws) as [[room role]|] eqn:Hc;
      [|by apply elem_of_nil in Hin].
    apply (on_message_targets _ _ _ _ _ _ Hwf Hc) in Hin
      as (i & p & -> & [->|[Hi _]]); [by left|].
    right. cbn. eauto.
  - by apply elem_of_nil in Hin.
  - rewrite step_close in Hin. cbn [calls_of snd] in Hin.
    unfold torn_down in Hin.
    destruct (closure st ws) as [[room role]|]; [|by apply elem_of_nil in Hin].
    apply cleared_broadcast in Hin as (i & d & w & -> & _ & Hocc).
    right. exists room. eexists. split; [reflexivity|].
    apply Hwf. exact Hocc.
  - rewrite step_error in Hin.
    cbn [calls_of snd] in Hin. unfold torn_down in Hin.
    destruct (closure st ws) as [[room role]|]; [|by apply elem_of_nil in Hin].
    apply cleared_broadcast in Hin as (i & d & w & -> & _ & Hocc).
    right. exists room. eexists. split; [reflexivity|].
    apply Hwf. exact Hocc.
Qed.

Lemma reachable_two_rooms : reachable st_two_rooms.
Proof. eexists. split; [|reflexivity]. vm_compute. by eexists. Qed.

Lemma X13_calls_stay_in_room_witness :
  target (Send 1 (frame_status true false))
  = event_socket st_two_rooms (ev_close 2)
  ∨ ∃ t r, event_token st_two_rooms (ev_close 2) = Some t
           ∧ closure st_two_rooms (target (Send 1 (frame_status true false)))
             = Some (t, r).
Proof.
  apply (X13_calls_stay_in_room st_two_rooms (ev_close 2) _ reachable_two_rooms).
  vm_compute. left.
Defined.
